(** * ShareCO2 ride chat: credential validation, messages, participants

    Shallow embedding of the chat server actions ([insertMessage],
    [getMessagesByRide], [validateCredentials], [getRideParticipants]).
    The TypeScript functions are [async] code over a Prisma client and a
    logger; here they are computations in a small state-and-exception monad
    over a [World] that holds the relational store, the logger output and a
    schedule saying what the outside does to the store between two queries
    and which queries the store refuses. *)

From Stdlib Require Import ZArith NArith String List Bool Sorted Permutation.
From stdpp Require Import base list strings sorting.

Local Open Scope string_scope.
Local Open Scope Z_scope.

(** ** Exceptions *)

(** An error object raised by the Prisma client: one of its own classes,
    with the raw data-access text as message. *)
Record StoreError : Type := mkStoreError {
  se_name : string;
  se_message : string
}.

(** What a [throw] carries: an [Error] built by this code with
    [new Error(message)], or an error of the Prisma client. *)
Inductive exn : Type :=
  | Error (message : string)
  | PrismaError (raw : StoreError).

Definition exn_name (e : exn) : string :=
  match e with
  | Error _ => "Error"
  | PrismaError raw => se_name raw
  end.

Definition exn_message (e : exn) : string :=
  match e with
  | Error m => m
  | PrismaError raw => se_message raw
  end.

(** [`${error}`]: Error.prototype.toString. *)
Definition toString (e : exn) : string :=
  let n := exn_name e in
  let m := exn_message e in
  if String.eqb n EmptyString then m
  else if String.eqb m EmptyString then n
  else n +:+ ": " +:+ m.

(** The spec's error taxonomy (section 7), read off the thrown value. *)
Inductive ErrKind : Type := NotFound | ChatClosed | Unauthorized | StoreFailure.

Definition kind_of (e : exn) : option ErrKind :=
  match e with
  | PrismaError _ => Some StoreFailure
  | Error m =>
      if String.eqb m "Ride not found" then Some NotFound
      else if String.eqb m "Ride is cancelled. Chat closed." then Some ChatClosed
      else if String.eqb m "Ride booking is cancelled. chat closed." then Some ChatClosed
      else if String.eqb m "Unauthorized sender" then Some Unauthorized
      else if String.eqb m "Something went wrong. Please try again letter."
           then Some StoreFailure
      else None
  end.

(** ** The relational store *)

(** Modelled from the spec: the Prisma schema is not part of the sources;
    the rows below carry the columns the queries of the source read or
    write, typed as spec section 3 describes them (string identifiers as in
    the functions' signatures, statuses compared with string literals, an
    optional user name). *)
Record User : Type := mkUser {
  user_id : string;
  user_name : option string;
  user_email : string
}.

Record Ride : Type := mkRide {
  ride_id : string;
  ride_driverId : string;
  ride_status : string
}.

Record Booking : Type := mkBooking {
  booking_id : string;
  booking_rideId : string;
  booking_userId : string;
  booking_status : string
}.

Record ChatMessage : Type := mkChatMessage {
  msg_id : N;
  msg_rideId : string;
  msg_userId : string;
  msg_content : string;
  msg_createdAt : Z
}.

(** Tables are lists in the store's row order; [clock] is the time the
    store stamps on a new row and [nextId] the identifier it assigns. *)
Record DB : Type := mkDB {
  rides : list Ride;
  bookings : list Booking;
  chatMessages : list ChatMessage;
  users : list User;
  clock : Z;
  nextId : N
}.

Definition findRide (d : DB) (rideId : string) : option Ride :=
  find (fun r => String.eqb (ride_id r) rideId) (rides d).

Definition findUser (d : DB) (userId : string) : option User :=
  find (fun u => String.eqb (user_id u) userId) (users d).

Definition bookingsOfRide (d : DB) (rideId : string) : list Booking :=
  List.filter (fun b => String.eqb (booking_rideId b) rideId) (bookings d).

Definition messagesOfRide (d : DB) (rideId : string) : list ChatMessage :=
  List.filter (fun m => String.eqb (msg_rideId m) rideId) (chatMessages d).

(** ** Worlds and the monad of server actions *)

(** Before a query runs, the rest of the application may have changed the
    store ([interfere]); the query itself may be refused ([fault]). An
    exhausted schedule means a quiet store that answers. *)
Record Tick : Type := mkTick {
  interfere : DB -> DB;
  fault : option StoreError
}.

Definition quiet : Tick := {| interfere := fun d => d; fault := None |}.

Record World : Type := mkWorld {
  db : DB;
  sched : list Tick;
  log : list string
}.

Inductive Outcome (A : Type) : Type :=
  | Return (a : A)
  | Throw (e : exn).
Arguments Return {A} a.
Arguments Throw {A} e.

Definition M (A : Type) : Type := World -> Outcome A * World.

Definition ret {A} (a : A) : M A := fun w => (Return a, w).

Definition throw {A} (e : exn) : M A := fun w => (Throw e, w).

Definition bind {A B} (m : M A) (k : A -> M B) : M B := fun w =>
  match m w with
  | (Return a, w') => k a w'
  | (Throw e, w') => (Throw e, w')
  end.

Definition tryCatch {A} (m : M A) (handler : exn -> M A) : M A := fun w =>
  match m w with
  | (Return a, w') => (Return a, w')
  | (Throw e, w') => handler e w'
  end.

#[global] Instance M_ret : MRet M := @ret.
#[global] Instance M_bind : MBind M := fun A B k m => bind m k.

(** [logger.error(line)] *)
Definition logged (line : string) (w : World) : World :=
  {| db := db w; sched := sched w; log := log w ++ [line] |}.

Definition logger_error (line : string) : M unit := fun w =>
  (Return tt, logged line w).

Definition next_tick (w : World) : Tick :=
  match sched w with
  | t :: _ => t
  | [] => quiet
  end.

(** The store as the next query will see it, and whether it will answer. *)
Definition snapshot (w : World) : DB := interfere (next_tick w) (db w).

Definition next_fault (w : World) : option StoreError := fault (next_tick w).

(** One awaited Prisma call: [q] reads the store and may change it. *)
(** The world once the next query has been issued and has left the store
    as it found it (a read, or a write that failed). *)
Definition answered (w : World) : World :=
  {| db := snapshot w; sched := tail (sched w); log := log w |}.

Definition query {A} (q : DB -> StoreError + (A * DB)) : M A := fun w =>
  match next_fault w with
  | Some raw => (Throw (PrismaError raw), answered w)
  | None =>
      match q (snapshot w) with
      | inl raw => (Throw (PrismaError raw), answered w)
      | inr (a, d') =>
          (Return a, {| db := d'; sched := tail (sched w); log := log w |})
      end
  end.

(** ** Prisma queries issued by the server actions *)

(** Modelled from the spec: the Prisma client is an external collaborator;
    each definition below is one query of the source, read as spec section 6
    describes it (lookup by id with nested includes, create-row,
    list-with-filter-and-sort). A relation the query must follow to a row
    that is not there makes the query fail. *)
Definition missing_relation (field : string) : StoreError :=
  {| se_name := "PrismaClientUnknownRequestError";
     se_message := "Inconsistent query result: Field " +:+ field +:+ " is required" |}.

Definition foreign_key_violation : StoreError :=
  {| se_name := "PrismaClientKnownRequestError";
     se_message := "Foreign key constraint violated" |}.

(** [ride] with [include: { bookings: { where: { userId } } }]. *)
Record RideWithBookings : Type := mkRideWithBookings {
  rwb_ride : Ride;
  rwb_bookings : list Booking
}.

Definition bookingsOfUser (d : DB) (rideId userId : string) : list Booking :=
  List.filter (fun b => String.eqb (booking_userId b) userId) (bookingsOfRide d rideId).

Definition ride_findUnique_bookingsOf (rideId userId : string) (d : DB)
  : StoreError + (option RideWithBookings * DB) :=
  inr (match findRide d rideId with
       | Some r => Some {| rwb_ride := r; rwb_bookings := bookingsOfUser d rideId userId |}
       | None => None
       end, d).

(** The row that [create] builds: the three columns of [data], with the
    identifier and the creation time the store assigns. *)
Definition newMessage (d : DB) (rideId senderId content : string) : ChatMessage :=
  {| msg_id := nextId d; msg_rideId := rideId; msg_userId := senderId;
     msg_content := content; msg_createdAt := clock d |}.

Definition addMessage (row : ChatMessage) (d : DB) : DB :=
  {| rides := rides d; bookings := bookings d;
     chatMessages := chatMessages d ++ [row];
     users := users d; clock := clock d; nextId := N.succ (nextId d) |}.

(** [prisma.chatMessage.create({ data: { rideId, userId, content } })]:
    refused when the ride or the user the row refers to is not there. *)
Definition chatMessage_create (rideId senderId content : string) (d : DB)
  : StoreError + (ChatMessage * DB) :=
  match findRide d rideId, findUser d senderId with
  | Some _, Some _ =>
      let row := newMessage d rideId senderId content in
      inr (row, addMessage row d)
  | _, _ => inl foreign_key_violation
  end.

(** [prisma.ride.findUnique({ where: { id }, select: { driverId: true } })]. *)
Definition ride_findUnique_driverId (rideId : string) (d : DB)
  : StoreError + (option string * DB) :=
  inr (option_map ride_driverId (findRide d rideId), d).

(** [include: { user: { select: { id, name, email } } }] on a message. *)
Record MessageWithUser : Type := mkMessageWithUser {
  mu_message : ChatMessage;
  mu_user : User
}.

Definition created_le (a b : ChatMessage) : Prop :=
  msg_createdAt a <= msg_createdAt b.

#[global] Instance created_le_dec a b : Decision (created_le a b) :=
  Z_le_dec (msg_createdAt a) (msg_createdAt b).

(** [orderBy: { createdAt: "asc" }]; rows created at the same time keep
    their table order. *)
Definition orderByCreatedAtAsc (l : list ChatMessage) : list ChatMessage :=
  merge_sort created_le l.

Fixpoint includeUser (d : DB) (l : list ChatMessage) : option (list MessageWithUser) :=
  match l with
  | [] => Some []
  | m :: l' =>
      match findUser d (msg_userId m), includeUser d l' with
      | Some u, Some r => Some ({| mu_message := m; mu_user := u |} :: r)
      | _, _ => None
      end
  end.

Definition chatMessage_findMany (rideId : string) (d : DB)
  : StoreError + (list MessageWithUser * DB) :=
  match includeUser d (orderByCreatedAtAsc (messagesOfRide d rideId)) with
  | Some l => inr (l, d)
  | None => inl (missing_relation "user")
  end.

(** [ride] with [include: { driver: ..., bookings: { include: { user } } }]. *)
Record BookingWithUser : Type := mkBookingWithUser {
  bu_booking : Booking;
  bu_user : User
}.

Record RideWithParticipants : Type := mkRideWithParticipants {
  rwp_ride : Ride;
  rwp_driver : User;
  rwp_bookings : list BookingWithUser
}.

Fixpoint includeBookingUser (d : DB) (l : list Booking) : option (list BookingWithUser) :=
  match l with
  | [] => Some []
  | b :: l' =>
      match findUser d (booking_userId b), includeBookingUser d l' with
      | Some u, Some r => Some ({| bu_booking := b; bu_user := u |} :: r)
      | _, _ => None
      end
  end.

Definition ride_findUnique_participants (rideId : string) (d : DB)
  : StoreError + (option RideWithParticipants * DB) :=
  match findRide d rideId with
  | None => inr (None, d)
  | Some r =>
      match findUser d (ride_driverId r) with
      | None => inl (missing_relation "driver")
      | Some drv =>
          match includeBookingUser d (bookingsOfRide d rideId) with
          | None => inl (missing_relation "user")
          | Some bs =>
              inr (Some {| rwp_ride := r; rwp_driver := drv; rwp_bookings := bs |}, d)
          end
      end
  end.

(** ** The server actions *)

(** Validate the credential for accessing the chat. *)
Definition validateCredentials (rideId userId : string) : M bool :=
  ride ← tryCatch
    (query (ride_findUnique_bookingsOf rideId userId))
    (fun error =>
       logger_error ("Unable to fetch ride: " +:+ toString error);;
       throw (Error "Something went wrong. Please try again letter."));
  match ride with
  | None => throw (Error "Ride not found")
  | Some ride =>
      if String.eqb (ride_status (rwb_ride ride)) "Cancelled"
      then throw (Error "Ride is cancelled. Chat closed.")
      else
        senderIsAuthenticated ←
          (if String.eqb (ride_driverId (rwb_ride ride)) userId
           then mret true
           else
             match rwb_bookings ride with
             | b0 :: _ =>
                 if String.eqb (booking_status b0) "CancelledDriver"
                    || String.eqb (booking_status b0) "CancelledUser"
                 then throw (Error "Ride booking is cancelled. chat closed.")
                 else mret true
             | [] => mret false
             end);
        if negb senderIsAuthenticated
        then throw (Error "Unauthorized sender")
        else mret true
  end.

(** Insert message into database. *)
Definition insertMessage (rideId senderId content : string) : M ChatMessage :=
  tryCatch
    (validateCredentials rideId senderId;;
     message ← query (chatMessage_create rideId senderId content);
     mret message)
    (fun error =>
       logger_error ("Error insert message: " +:+ toString error);;
       throw error).

Record UserWithRole : Type := mkUserWithRole {
  ur_id : string;
  ur_name : option string;
  ur_email : string;
  ur_isDriver : bool
}.

Record MessageWithRole : Type := mkMessageWithRole {
  mr_message : ChatMessage;
  mr_user : UserWithRole
}.

(** The callback of [messages.map] in [getMessagesByRide]. *)
Definition withRole (driverId : string) (message : MessageWithUser) : MessageWithRole :=
  {| mr_message := mu_message message;
     mr_user :=
       {| ur_id := user_id (mu_user message);
          ur_name := user_name (mu_user message);
          ur_email := user_email (mu_user message);
          ur_isDriver := String.eqb (user_id (mu_user message)) driverId |} |}.

(** Fetch messages for a ride, with sender info and role, oldest first. *)
Definition getMessagesByRide (userId rideId : string) : M (list MessageWithRole) :=
  validateCredentials rideId userId;;
  ride ← query (ride_findUnique_driverId rideId);
  match ride with
  | None => throw (Error "Ride not found")
  | Some driverId =>
      messages ← query (chatMessage_findMany rideId);
      let messagesWithRole := map (withRole driverId) messages in
      mret messagesWithRole
  end.

Record Participant : Type := mkParticipant {
  p_id : string;
  p_name : string;
  p_email : string;
  p_isDriver : bool
}.

(** [name || fallback] on a [string | null]: null and the empty string are
    both falsy. *)
Definition orElse (name : option string) (fallback : string) : string :=
  match name with
  | Some s => if String.eqb s EmptyString then fallback else s
  | None => fallback
  end.

Definition driverParticipant (ride : RideWithParticipants) : Participant :=
  {| p_id := user_id (rwp_driver ride);
     p_name := orElse (user_name (rwp_driver ride)) "Champion";
     p_email := user_email (rwp_driver ride);
     p_isDriver := true |}.

Definition passengerParticipant (booking : BookingWithUser) : Participant :=
  {| p_id := user_id (bu_user booking);
     p_name := orElse (user_name (bu_user booking)) "Rider";
     p_email := user_email (bu_user booking);
     p_isDriver := false |}.

(** Get ride participants by ride ID. *)
Definition getRideParticipants (rideId : string) : M (list Participant) :=
  tryCatch
    (ride ← query (ride_findUnique_participants rideId);
     match ride with
     | None => throw (Error "Ride not found")
     | Some ride =>
         let passengerParticipants := map passengerParticipant (rwp_bookings ride) in
         let participants := driverParticipant ride :: passengerParticipants in
         mret participants
     end)
    (fun error =>
       logger_error ("Error fetching participants for ride ID " +:+ rideId
                     +:+ ": " +:+ toString error);;
       throw error).

(** ** Vocabulary of the statements *)

(** The store after the outside alone has acted during the given ticks. *)
Fixpoint environment (ts : list Tick) (d : DB) : DB :=
  match ts with
  | [] => d
  | t :: ts' => environment ts' (interfere t d)
  end.

(** The ticks used up between two worlds of one run. *)
Definition consumed (w w' : World) : list Tick :=
  firstn (length (sched w) - length (sched w')) (sched w).

(** A booking row that closes the chat for its holder. *)
Definition cancelledBooking (b : Booking) : Prop :=
  booking_status b = "CancelledDriver" \/ booking_status b = "CancelledUser".

(** Every sender of a message of the ride is a row of the user table. *)
Definition sendersPresent (d : DB) (rideId : string) : Prop :=
  Forall (fun m => findUser d (msg_userId m) <> None) (messagesOfRide d rideId).

(** The driver of the ride is a row of the user table. *)
Definition driverPresent (d : DB) (r : Ride) : Prop :=
  findUser d (ride_driverId r) <> None.

(** Every holder of a booking of the ride is a row of the user table. *)
Definition ridersPresent (d : DB) (rideId : string) : Prop :=
  Forall (fun b => findUser d (booking_userId b) <> None) (bookingsOfRide d rideId).

(** What the validator answers on a store that replied to its lookup,
    rule by rule, in the order the source tests them. *)
Inductive verdict (d : DB) (rideId userId : string) : Outcome bool -> Prop :=
  | verdict_no_ride :
      findRide d rideId = None ->
      verdict d rideId userId (Throw (Error "Ride not found"))
  | verdict_ride_cancelled r :
      findRide d rideId = Some r ->
      ride_status r = "Cancelled" ->
      verdict d rideId userId (Throw (Error "Ride is cancelled. Chat closed."))
  | verdict_driver r :
      findRide d rideId = Some r ->
      ride_status r <> "Cancelled" ->
      ride_driverId r = userId ->
      verdict d rideId userId (Return true)
  | verdict_stranger r :
      findRide d rideId = Some r ->
      ride_status r <> "Cancelled" ->
      ride_driverId r <> userId ->
      bookingsOfUser d rideId userId = [] ->
      verdict d rideId userId (Throw (Error "Unauthorized sender"))
  | verdict_booking_cancelled r b0 others :
      findRide d rideId = Some r ->
      ride_status r <> "Cancelled" ->
      ride_driverId r <> userId ->
      bookingsOfUser d rideId userId = b0 :: others ->
      cancelledBooking b0 ->
      verdict d rideId userId (Throw (Error "Ride booking is cancelled. chat closed."))
  | verdict_booking_active r b0 others :
      findRide d rideId = Some r ->
      ride_status r <> "Cancelled" ->
      ride_driverId r <> userId ->
      bookingsOfUser d rideId userId = b0 :: others ->
      ~ cancelledBooking b0 ->
      verdict d rideId userId (Return true).

(** The user may use the chat of the ride: the ride exists and is not
    cancelled, and the user drives it or the first booking the store returns
    for the user is not cancelled. *)
Definition mayChat (d : DB) (rideId userId : string) : Prop :=
  exists r,
    findRide d rideId = Some r /\
    ride_status r <> "Cancelled" /\
    (ride_driverId r = userId \/
     exists b0 others,
       bookingsOfUser d rideId userId = b0 :: others /\ ~ cancelledBooking b0).

(** The world after [k] queries that left the store as they found it. *)
Fixpoint answered_n (k : nat) (w : World) : World :=
  match k with
  | O => w
  | S k' => answered_n k' (answered w)
  end.

(** Two worlds with the same store and the same schedule ahead; their logs
    may differ. *)
Definition sameStore (w1 w2 : World) : Prop :=
  db w1 = db w2 /\ sched w1 = sched w2.

(** ** Sample stores *)

Definition dana : User := {| user_id := "dana"; user_name := None; user_email := "dana@share.co" |}.
Definition uma : User := {| user_id := "uma"; user_name := Some "Uma"; user_email := "uma@share.co" |}.
Definition vic : User := {| user_id := "vic"; user_name := None; user_email := "vic@share.co" |}.

Definition booking (id userId status : string) : Booking :=
  {| booking_id := id; booking_rideId := "R"; booking_userId := userId;
     booking_status := status |}.

Definition message (id : N) (userId content : string) (createdAt : Z) : ChatMessage :=
  {| msg_id := id; msg_rideId := "R"; msg_userId := userId; msg_content := content;
     msg_createdAt := createdAt |}.

(** One ride "R" driven by dana, with the given status, bookings and
    messages. *)
Definition store (status : string) (bs : list Booking) (ms : list ChatMessage) : DB :=
  {| rides := [ {| ride_id := "R"; ride_driverId := "dana"; ride_status := status |} ];
     bookings := bs; chatMessages := ms; users := [dana; uma; vic];
     clock := 1700; nextId := 7 |}.

Definition calm (d : DB) : World := {| db := d; sched := []; log := [] |}.

Definition scheduled (ts : list Tick) (d : DB) : World :=
  {| db := d; sched := ts; log := [] |}.

Definition unreachable : StoreError :=
  {| se_name := "PrismaClientInitializationError";
     se_message := "Can't reach database server at db:5432" |}.

Definition refuse : Tick := {| interfere := fun d => d; fault := Some unreachable |}.

(** Another request deletes every ride before the next query runs. *)
Definition dropRides : Tick :=
  {| interfere := fun d =>
       {| rides := []; bookings := bookings d; chatMessages := chatMessages d;
          users := users d; clock := clock d; nextId := nextId d |};
     fault := None |}.

(** * Properties *)

(** ** Running the monad *)

Ltac unfold_M :=
  unfold mbind, M_bind, mret, M_ret, bind, tryCatch, throw, ret, logger_error.

Lemma bind_return {A B} (m : M A) (k : A -> M B) w a w' :
  m w = (Return a, w') -> (m ≫= k) w = k a w'.
Proof. intros H. unfold_M. now rewrite H. Qed.

Lemma bind_throw {A B} (m : M A) (k : A -> M B) w e w' :
  m w = (Throw e, w') -> (m ≫= k) w = (Throw e, w').
Proof. intros H. unfold_M. now rewrite H. Qed.

Lemma query_fault {A} (q : DB -> StoreError + (A * DB)) w raw :
  next_fault w = Some raw ->
  query q w = (Throw (PrismaError raw), answered w).
Proof. intros H. unfold query. now rewrite H. Qed.

Lemma query_read {A} (f : DB -> A) w :
  next_fault w = None ->
  query (fun d => inr (f d, d)) w = (Return (f (snapshot w)), answered w).
Proof. intros H. unfold query. now rewrite H. Qed.

(** ** String comparison *)

Lemma eqb_false_of_neq (a b : string) : a <> b -> String.eqb a b = false.
Proof. apply String.eqb_neq. Qed.

Lemma findRide_id d rideId r : findRide d rideId = Some r -> ride_id r = rideId.
Proof.
  unfold findRide. intros H. apply find_some in H as [_ H].
  now apply String.eqb_eq.
Qed.

Lemma findUser_id d userId u : findUser d userId = Some u -> user_id u = userId.
Proof.
  unfold findUser. intros H. apply find_some in H as [_ H].
  now apply String.eqb_eq.
Qed.

(** ** The credential validator, case by case *)

Section Validator.
Variables (rideId userId : string) (w : World).

Lemma validate_fault raw :
  next_fault w = Some raw ->
  validateCredentials rideId userId w =
    (Throw (Error "Something went wrong. Please try again letter."),
     logged ("Unable to fetch ride: " +:+ toString (PrismaError raw)) (answered w)).
Proof.
  intros H. unfold validateCredentials.
  apply bind_throw. unfold tryCatch. now rewrite (query_fault _ _ _ H).
Qed.

Hypothesis answers : next_fault w = None.

Lemma validate_lookup :
  tryCatch (query (ride_findUnique_bookingsOf rideId userId))
    (fun error =>
       logger_error ("Unable to fetch ride: " +:+ toString error);;
       throw (Error "Something went wrong. Please try again letter.")) w =
  (Return (match findRide (snapshot w) rideId with
           | Some r => Some {| rwb_ride := r;
                               rwb_bookings := bookingsOfUser (snapshot w) rideId userId |}
           | None => None
           end), answered w).
Proof.
  unfold tryCatch, ride_findUnique_bookingsOf.
  now rewrite (query_read _ _ answers).
Qed.

Lemma validate_not_found :
  findRide (snapshot w) rideId = None ->
  validateCredentials rideId userId w = (Throw (Error "Ride not found"), answered w).
Proof.
  intros H. unfold validateCredentials.
  rewrite (bind_return _ _ _ _ _ validate_lookup), H. reflexivity.
Qed.

Variable r : Ride.
Hypothesis found : findRide (snapshot w) rideId = Some r.

Lemma validate_cancelled :
  ride_status r = "Cancelled" ->
  validateCredentials rideId userId w =
    (Throw (Error "Ride is cancelled. Chat closed."), answered w).
Proof.
  intros H. unfold validateCredentials.
  rewrite (bind_return _ _ _ _ _ validate_lookup), found. simpl.
  now rewrite H.
Qed.

Hypothesis open : ride_status r <> "Cancelled".

Lemma validate_driver :
  ride_driverId r = userId ->
  validateCredentials rideId userId w = (Return true, answered w).
Proof.
  intros H. unfold validateCredentials.
  rewrite (bind_return _ _ _ _ _ validate_lookup), found. simpl.
  rewrite (eqb_false_of_neq _ _ open).
  apply String.eqb_eq in H. unfold_M. now rewrite H.
Qed.

Hypothesis not_driver : ride_driverId r <> userId.

Lemma validate_stranger :
  bookingsOfUser (snapshot w) rideId userId = [] ->
  validateCredentials rideId userId w = (Throw (Error "Unauthorized sender"), answered w).
Proof.
  intros H. unfold validateCredentials.
  rewrite (bind_return _ _ _ _ _ validate_lookup), found. simpl.
  rewrite (eqb_false_of_neq _ _ open), H.
  unfold_M. now rewrite (eqb_false_of_neq _ _ not_driver).
Qed.

Variables (b0 : Booking) (others : list Booking).
Hypothesis booked : bookingsOfUser (snapshot w) rideId userId = b0 :: others.

Lemma validate_booking_cancelled :
  cancelledBooking b0 ->
  validateCredentials rideId userId w =
    (Throw (Error "Ride booking is cancelled. chat closed."), answered w).
Proof.
  intros H. unfold validateCredentials.
  rewrite (bind_return _ _ _ _ _ validate_lookup), found. simpl.
  rewrite (eqb_false_of_neq _ _ open), booked.
  unfold_M. rewrite (eqb_false_of_neq _ _ not_driver).
  destruct H as [H | H]; rewrite H; reflexivity.
Qed.

Lemma validate_booking_active :
  ~ cancelledBooking b0 ->
  validateCredentials rideId userId w = (Return true, answered w).
Proof.
  intros H. unfold validateCredentials.
  rewrite (bind_return _ _ _ _ _ validate_lookup), found. simpl.
  rewrite (eqb_false_of_neq _ _ open), booked.
  unfold_M. rewrite (eqb_false_of_neq _ _ not_driver).
  rewrite !eqb_false_of_neq; [reflexivity | |]; intros E; apply H; [right | left]; exact E.
Qed.
End Validator.

(** ** The validator inside the two message operations *)

Lemma insert_validate_throw rideId senderId content w e w' :
  validateCredentials rideId senderId w = (Throw e, w') ->
  insertMessage rideId senderId content w =
    (Throw e, logged ("Error insert message: " +:+ toString e) w').
Proof.
  intros H. unfold insertMessage, tryCatch.
  now rewrite (bind_throw _ _ _ _ _ H).
Qed.

Lemma get_validate_throw userId rideId w e w' :
  validateCredentials rideId userId w = (Throw e, w') ->
  getMessagesByRide userId rideId w = (Throw e, w').
Proof. intros H. unfold getMessagesByRide. now apply bind_throw. Qed.

(** ** Closed chats and strangers *)

(** C2. On a ride whose status is "Cancelled", [insertMessage] and
    [getMessagesByRide] both fail with ChatClosed, whoever the caller is:
    the statement holds for every user id and whatever bookings the store
    has. *)
Theorem cancelled_ride_closes_chat rideId userId content w r :
  next_fault w = None ->
  findRide (snapshot w) rideId = Some r ->
  ride_status r = "Cancelled" ->
  let e := Error "Ride is cancelled. Chat closed." in
  kind_of e = Some ChatClosed /\
  fst (insertMessage rideId userId content w) = Throw e /\
  fst (getMessagesByRide userId rideId w) = Throw e.
Proof.
  intros Ha Hr Hs e.
  pose proof (validate_cancelled rideId userId w Ha r Hr Hs) as Hv.
  split; [reflexivity | split].
  - now rewrite (insert_validate_throw _ _ content _ _ _ Hv).
  - now rewrite (get_validate_throw _ _ _ _ _ Hv).
Qed.

Lemma cancelled_ride_closes_chat_witness :
  let w := calm (store "Cancelled" [booking "b1" "uma" "Confirmed"] []) in
  fst (insertMessage "R" "dana" "hello" w) = Throw (Error "Ride is cancelled. Chat closed.") /\
  fst (getMessagesByRide "uma" "R" w) = Throw (Error "Ride is cancelled. Chat closed.").
Proof.
  intros w. split.
  - apply (cancelled_ride_closes_chat "R" "dana" "hello" w
             {| ride_id := "R"; ride_driverId := "dana"; ride_status := "Cancelled" |});
      reflexivity.
  - apply (cancelled_ride_closes_chat "R" "uma" "hello" w
             {| ride_id := "R"; ride_driverId := "dana"; ride_status := "Cancelled" |});
      reflexivity.
Defined.

Lemma no_booking_of_user d rideId userId :
  (forall b, In b (bookings d) -> booking_rideId b = rideId -> booking_userId b <> userId) ->
  bookingsOfUser d rideId userId = [].
Proof.
  intros H. unfold bookingsOfUser, bookingsOfRide.
  destruct (List.filter _ (List.filter _ _)) as [| b l] eqn:E; [reflexivity |].
  assert (Hb : In b (b :: l)) by (left; reflexivity).
  rewrite <- E in Hb.
  apply filter_In in Hb as [Hb Hu]. apply filter_In in Hb as [Hb Hr].
  apply String.eqb_eq in Hu, Hr. now destruct (H b Hb Hr).
Qed.

(** C3. On an existing ride that is not cancelled, a user who is neither
    the driver nor the holder of any booking of the ride gets Unauthorized
    from both [insertMessage] and [getMessagesByRide]. *)
Theorem stranger_is_unauthorized rideId userId content w r :
  next_fault w = None ->
  findRide (snapshot w) rideId = Some r ->
  ride_status r <> "Cancelled" ->
  ride_driverId r <> userId ->
  (forall b, In b (bookings (snapshot w)) ->
             booking_rideId b = rideId -> booking_userId b <> userId) ->
  let e := Error "Unauthorized sender" in
  kind_of e = Some Unauthorized /\
  fst (insertMessage rideId userId content w) = Throw e /\
  fst (getMessagesByRide userId rideId w) = Throw e.
Proof.
  intros Ha Hr Hs Hd Hb e.
  pose proof (validate_stranger rideId userId w Ha r Hr Hs Hd
                (no_booking_of_user _ _ _ Hb)) as Hv.
  split; [reflexivity | split].
  - now rewrite (insert_validate_throw _ _ content _ _ _ Hv).
  - now rewrite (get_validate_throw _ _ _ _ _ Hv).
Qed.

Lemma stranger_is_unauthorized_witness :
  let w := calm (store "Confirmed" [booking "b1" "uma" "Confirmed"] []) in
  fst (insertMessage "R" "vic" "hello" w) = Throw (Error "Unauthorized sender") /\
  fst (getMessagesByRide "vic" "R" w) = Throw (Error "Unauthorized sender").
Proof.
  intros w.
  apply (stranger_is_unauthorized "R" "vic" "hello" w
           {| ride_id := "R"; ride_driverId := "dana"; ride_status := "Confirmed" |});
    try reflexivity; try discriminate.
  intros b [<- | []] _. discriminate.
Defined.

(** ** Missing rides *)

Lemma validate_return rideId userId w b w1 :
  validateCredentials rideId userId w = (Return b, w1) ->
  next_fault w = None /\ w1 = answered w /\ b = true.
Proof.
  intros H.
  destruct (next_fault w) as [raw |] eqn:Ha.
  { rewrite (validate_fault _ _ _ _ Ha) in H. discriminate. }
  destruct (findRide (snapshot w) rideId) as [r |] eqn:Hr.
  2: { rewrite (validate_not_found _ _ _ Ha Hr) in H. discriminate. }
  destruct (string_dec (ride_status r) "Cancelled") as [Hs | Hs].
  { rewrite (validate_cancelled _ _ _ Ha _ Hr Hs) in H. discriminate. }
  destruct (string_dec (ride_driverId r) userId) as [Hd | Hd].
  { rewrite (validate_driver _ _ _ Ha _ Hr Hs Hd) in H. now inversion H. }
  destruct (bookingsOfUser (snapshot w) rideId userId) as [| b0 others] eqn:Hb.
  { rewrite (validate_stranger _ _ _ Ha _ Hr Hs Hd Hb) in H. discriminate. }
  destruct (string_dec (booking_status b0) "CancelledDriver") as [H1 | H1].
  { rewrite (validate_booking_cancelled _ _ _ Ha _ Hr Hs Hd _ _ Hb (or_introl H1)) in H.
    discriminate. }
  destruct (string_dec (booking_status b0) "CancelledUser") as [H2 | H2].
  { rewrite (validate_booking_cancelled _ _ _ Ha _ Hr Hs Hd _ _ Hb (or_intror H2)) in H.
    discriminate. }
  rewrite (validate_booking_active _ _ _ Ha _ Hr Hs Hd _ _ Hb) in H.
  - now inversion H.
  - intros [E | E]; contradiction.
Qed.

Lemma get_after_validation userId rideId w w1 :
  validateCredentials rideId userId w = (Return true, w1) ->
  getMessagesByRide userId rideId w =
    (ride ← query (ride_findUnique_driverId rideId);
     match ride with
     | None => throw (Error "Ride not found")
     | Some driverId =>
         messages ← query (chatMessage_findMany rideId);
         mret (map (withRole driverId) messages)
     end) w1.
Proof. intros H. unfold getMessagesByRide. now rewrite (bind_return _ _ _ _ _ H). Qed.

(** C7. When no ride has the given id, the validator fails with NotFound,
    and so do [insertMessage] and [getMessagesByRide]; and when validation
    passed but the ride is gone by the time [getMessagesByRide] reads it
    again, that second read fails with NotFound as well. *)
Theorem missing_ride_not_found rideId userId content w :
  let e := Error "Ride not found" in
  kind_of e = Some NotFound /\
  (next_fault w = None ->
   findRide (snapshot w) rideId = None ->
   fst (validateCredentials rideId userId w) = Throw e /\
   fst (insertMessage rideId userId content w) = Throw e /\
   fst (getMessagesByRide userId rideId w) = Throw e) /\
  (forall w1,
     validateCredentials rideId userId w = (Return true, w1) ->
     next_fault w1 = None ->
     findRide (snapshot w1) rideId = None ->
     getMessagesByRide userId rideId w = (Throw e, answered w1)).
Proof.
  intros e. split; [reflexivity | split].
  - intros Ha Hr.
    pose proof (validate_not_found rideId userId w Ha Hr) as Hv.
    rewrite Hv, (insert_validate_throw _ _ content _ _ _ Hv),
      (get_validate_throw _ _ _ _ _ Hv). auto.
  - intros w1 Hv Ha Hr.
    rewrite (get_after_validation _ _ _ _ Hv).
    unfold ride_findUnique_driverId.
    rewrite (bind_return _ _ _ _ _ (query_read _ _ Ha)), Hr. reflexivity.
Qed.

Lemma missing_ride_not_found_witness :
  (let w := calm (store "Confirmed" [] []) in
   fst (validateCredentials "Q" "dana" w) = Throw (Error "Ride not found") /\
   fst (insertMessage "Q" "dana" "hello" w) = Throw (Error "Ride not found") /\
   fst (getMessagesByRide "dana" "Q" w) = Throw (Error "Ride not found")) /\
  (let w := scheduled [quiet; dropRides] (store "Confirmed" [] []) in
   fst (validateCredentials "R" "dana" w) = Return true /\
   fst (getMessagesByRide "dana" "R" w) = Throw (Error "Ride not found")).
Proof.
  split.
  - intros w. apply (missing_ride_not_found "Q" "dana" "hello" w); reflexivity.
  - intros w. split; [reflexivity |].
    destruct (missing_ride_not_found "R" "dana" "hello" w) as (_ & _ & H).
    rewrite (H (answered w)); reflexivity.
Defined.

(** ** Store failures *)

(** C8. When the validator's ride lookup is refused by the store, the raw
    error goes to the log and the caller gets a fixed [Error] that does not
    depend on it, from the validator and from both message operations; when
    the store refuses the insert itself, [insertMessage] logs that error and
    throws the very same value. *)
Theorem store_failure_reporting rideId userId content w :
  let generic := Error "Something went wrong. Please try again letter." in
  (forall raw,
     next_fault w = Some raw ->
     validateCredentials rideId userId w =
       (Throw generic,
        logged ("Unable to fetch ride: " +:+ toString (PrismaError raw)) (answered w)) /\
     fst (insertMessage rideId userId content w) = Throw generic /\
     fst (getMessagesByRide userId rideId w) = Throw generic) /\
  (forall w1 e w2,
     validateCredentials rideId userId w = (Return true, w1) ->
     query (chatMessage_create rideId userId content) w1 = (Throw e, w2) ->
     insertMessage rideId userId content w =
       (Throw e, logged ("Error insert message: " +:+ toString e) w2)).
Proof.
  intros generic. split.
  - intros raw Ha.
    pose proof (validate_fault rideId userId w raw Ha) as Hv.
    rewrite (insert_validate_throw _ _ content _ _ _ Hv),
      (get_validate_throw _ _ _ _ _ Hv). auto.
  - intros w1 e w2 Hv Hq.
    unfold insertMessage, tryCatch.
    rewrite (bind_return _ _ _ _ _ Hv), (bind_throw _ _ _ _ _ Hq). reflexivity.
Qed.

Lemma store_failure_reporting_witness :
  (let w := scheduled [refuse] (store "Confirmed" [] []) in
   next_fault w = Some unreachable /\
   validateCredentials "R" "dana" w =
     (Throw (Error "Something went wrong. Please try again letter."),
      {| db := db w; sched := [];
         log := ["Unable to fetch ride: PrismaClientInitializationError: Can't reach database server at db:5432"] |}) /\
   fst (insertMessage "R" "dana" "hello" w) =
     Throw (Error "Something went wrong. Please try again letter.") /\
   fst (getMessagesByRide "dana" "R" w) =
     Throw (Error "Something went wrong. Please try again letter.")) /\
  (let w := scheduled [quiet; refuse] (store "Confirmed" [] []) in
   insertMessage "R" "dana" "hello" w =
     (Throw (PrismaError unreachable),
      {| db := db w; sched := [];
         log := ["Error insert message: PrismaClientInitializationError: Can't reach database server at db:5432"] |})).
Proof.
  split.
  - intros w. split; [reflexivity |].
    destruct (store_failure_reporting "R" "dana" "hello" w) as [H _].
    exact (H unreachable eq_refl).
  - intros w.
    destruct (store_failure_reporting "R" "dana" "hello" w) as [_ H].
    exact (H (answered w) (PrismaError unreachable) (answered (answered w))
             eq_refl eq_refl).
Defined.

(** ** Which booking the validator reads *)

(** C9. The validator reads at most the first booking the store returns
    for the user. For the driver no booking is read: validation passes
    whatever bookings the driver holds. For anyone else the first booking
    alone decides: cancelled, the chat is closed; not cancelled, validation
    passes, whatever the status of the bookings after it. *)
Theorem first_booking_decides rideId userId w r :
  next_fault w = None ->
  findRide (snapshot w) rideId = Some r ->
  ride_status r <> "Cancelled" ->
  (ride_driverId r = userId ->
   validateCredentials rideId userId w = (Return true, answered w)) /\
  (forall b0 others,
     ride_driverId r <> userId ->
     bookingsOfUser (snapshot w) rideId userId = b0 :: others ->
     (cancelledBooking b0 ->
      validateCredentials rideId userId w =
        (Throw (Error "Ride booking is cancelled. chat closed."), answered w)) /\
     (~ cancelledBooking b0 ->
      validateCredentials rideId userId w = (Return true, answered w))).
Proof.
  intros Ha Hr Hs. split.
  - apply validate_driver with (r := r); assumption.
  - intros b0 others Hd Hb. split.
    + now apply validate_booking_cancelled with (r := r) (b0 := b0) (others := others).
    + now apply validate_booking_active with (r := r) (b0 := b0) (others := others).
Qed.

Lemma first_booking_decides_witness :
  (let w := calm (store "Confirmed" [booking "b1" "dana" "CancelledUser"] []) in
   bookingsOfUser (snapshot w) "R" "dana" = [booking "b1" "dana" "CancelledUser"] /\
   validateCredentials "R" "dana" w = (Return true, w)) /\
  (let w := calm (store "Confirmed"
                    [booking "b1" "uma" "Confirmed"; booking "b2" "uma" "CancelledUser"] []) in
   validateCredentials "R" "uma" w = (Return true, w)) /\
  (let w := calm (store "Confirmed"
                    [booking "b1" "uma" "CancelledDriver"; booking "b2" "uma" "Confirmed"] []) in
   validateCredentials "R" "uma" w =
     (Throw (Error "Ride booking is cancelled. chat closed."), w)).
Proof.
  pose (r := {| ride_id := "R"; ride_driverId := "dana"; ride_status := "Confirmed" |}).
  split; [| split].
  - intros w. split; [reflexivity |].
    destruct (first_booking_decides "R" "dana" w r) as [H _];
      [reflexivity | reflexivity | discriminate |].
    exact (H eq_refl).
  - intros w.
    destruct (first_booking_decides "R" "uma" w r) as [_ H];
      [reflexivity | reflexivity | discriminate |].
    destruct (H (booking "b1" "uma" "Confirmed") [booking "b2" "uma" "CancelledUser"])
      as [_ H']; [discriminate | reflexivity |].
    apply H'. intros [E | E]; discriminate E.
  - intros w.
    destruct (first_booking_decides "R" "uma" w r) as [_ H];
      [reflexivity | reflexivity | discriminate |].
    destruct (H (booking "b1" "uma" "CancelledDriver") [booking "b2" "uma" "Confirmed"])
      as [H' _]; [discriminate | reflexivity |].
    apply H'. left. reflexivity.
Defined.

(** ** Cancelled bookings *)

(** C1, as the code has it. A user who is not the driver of the ride and
    whose booking of the ride, the first one the store returns for that
    user, has status "CancelledDriver" or "CancelledUser" gets ChatClosed
    from both [insertMessage] and [getMessagesByRide]. *)
Theorem cancelled_booking_closes_chat rideId userId content w r b0 others :
  next_fault w = None ->
  findRide (snapshot w) rideId = Some r ->
  ride_driverId r <> userId ->
  bookingsOfUser (snapshot w) rideId userId = b0 :: others ->
  cancelledBooking b0 ->
  exists e,
    kind_of e = Some ChatClosed /\
    fst (insertMessage rideId userId content w) = Throw e /\
    fst (getMessagesByRide userId rideId w) = Throw e.
Proof.
  intros Ha Hr Hd Hb Hc.
  destruct (string_dec (ride_status r) "Cancelled") as [Hs | Hs].
  - exists (Error "Ride is cancelled. Chat closed.").
    pose proof (validate_cancelled rideId userId w Ha r Hr Hs) as Hv.
    rewrite (insert_validate_throw _ _ content _ _ _ Hv),
      (get_validate_throw _ _ _ _ _ Hv). auto.
  - exists (Error "Ride booking is cancelled. chat closed.").
    pose proof (validate_booking_cancelled rideId userId w Ha r Hr Hs Hd b0 others Hb Hc)
      as Hv.
    rewrite (insert_validate_throw _ _ content _ _ _ Hv),
      (get_validate_throw _ _ _ _ _ Hv). auto.
Qed.

Lemma cancelled_booking_closes_chat_witness :
  let w := calm (store "Confirmed" [booking "b1" "uma" "CancelledUser"] []) in
  exists e,
    kind_of e = Some ChatClosed /\
    fst (insertMessage "R" "uma" "hi" w) = Throw e /\
    fst (getMessagesByRide "uma" "R" w) = Throw e.
Proof.
  intros w.
  apply (cancelled_booking_closes_chat "R" "uma" "hi" w
           {| ride_id := "R"; ride_driverId := "dana"; ride_status := "Confirmed" |}
           (booking "b1" "uma" "CancelledUser") []);
    try reflexivity; try discriminate.
  right. reflexivity.
Defined.

(** C1, as stated, fails: dana drives ride "R" and also holds a booking of
    it with status "CancelledUser"; the store answers, yet validation
    passes, [insertMessage] creates the row and [getMessagesByRide] returns
    the (empty) list. *)
Lemma driver_with_cancelled_booking_passes :
  let d := store "Confirmed" [booking "b1" "dana" "CancelledUser"] [] in
  let w := calm d in
  next_fault w = None /\
  findRide (snapshot w) "R" =
    Some {| ride_id := "R"; ride_driverId := "dana"; ride_status := "Confirmed" |} /\
  In (booking "b1" "dana" "CancelledUser") (bookingsOfUser (snapshot w) "R" "dana") /\
  cancelledBooking (booking "b1" "dana" "CancelledUser") /\
  fst (insertMessage "R" "dana" "hi" w) = Return (message 7 "dana" "hi" 1700) /\
  fst (getMessagesByRide "dana" "R" w) = Return [] /\
  ~ (exists e, kind_of e = Some ChatClosed /\
               fst (insertMessage "R" "dana" "hi" w) = Throw e /\
               fst (getMessagesByRide "dana" "R" w) = Throw e).
Proof.
  intros d w.
  repeat split; try reflexivity.
  - left. reflexivity.
  - right. reflexivity.
  - intros (e & _ & H & _). discriminate H.
Qed.

(** ** Listing the messages of a ride *)

#[global] Instance created_le_total : Total created_le.
Proof. intros a b. unfold created_le. lia. Qed.

Lemma orderByCreatedAtAsc_sorted l : Sorted created_le (orderByCreatedAtAsc l).
Proof. apply (Sorted_merge_sort created_le). Qed.

Lemma orderByCreatedAtAsc_perm l : Permutation (orderByCreatedAtAsc l) l.
Proof. apply (merge_sort_Permutation created_le). Qed.

(** The join of messages with their senders keeps the messages and their
    order, and pairs each with the user row of its sender. *)
Lemma includeUser_some d l :
  Forall (fun m => findUser d (msg_userId m) <> None) l ->
  exists r,
    includeUser d l = Some r /\
    map mu_message r = l /\
    Forall (fun mu => findUser d (msg_userId (mu_message mu)) = Some (mu_user mu)) r.
Proof.
  induction 1 as [| m l Hm _ (r & Hr & Hmap & Hall)].
  - exists []. repeat split. constructor.
  - destruct (findUser d (msg_userId m)) as [u |] eqn:Hu; [| contradiction].
    exists ({| mu_message := m; mu_user := u |} :: r). simpl.
    rewrite Hu, Hr. repeat split.
    + now rewrite Hmap.
    + constructor; assumption.
Qed.

Lemma map_withRole_message driverId l :
  map mr_message (map (withRole driverId) l) = map mu_message l.
Proof. rewrite map_map. reflexivity. Qed.

(** C4. For an authorized caller (validation passed) and a store that
    answers the two reads that follow, [getMessagesByRide] returns all the
    messages of the ride and only them, in non-decreasing order of creation
    time, each with the profile of its sender and an [isDriver] flag that is
    true exactly when the sender's id is the ride's [driverId]. *)
Theorem messages_oldest_first_with_role userId rideId w w1 r :
  validateCredentials rideId userId w = (Return true, w1) ->
  next_fault w1 = None ->
  findRide (snapshot w1) rideId = Some r ->
  next_fault (answered w1) = None ->
  sendersPresent (snapshot (answered w1)) rideId ->
  exists ms,
    getMessagesByRide userId rideId w = (Return ms, answered (answered w1)) /\
    Permutation (map mr_message ms) (messagesOfRide (snapshot (answered w1)) rideId) /\
    Sorted created_le (map mr_message ms) /\
    Forall (fun m =>
              (exists u, findUser (snapshot (answered w1)) (msg_userId (mr_message m)) = Some u /\
                         ur_name (mr_user m) = user_name u /\
                         ur_email (mr_user m) = user_email u) /\
              ur_id (mr_user m) = msg_userId (mr_message m) /\
              (ur_isDriver (mr_user m) = true <->
               msg_userId (mr_message m) = ride_driverId r)) ms.
Proof.
  intros Hv Ha1 Hr Ha2 Hs.
  set (d := snapshot (answered w1)) in *.
  assert (Hs' : Forall (fun m => findUser d (msg_userId m) <> None)
                  (orderByCreatedAtAsc (messagesOfRide d rideId))).
  { eapply Permutation_Forall; [| exact Hs].
    symmetry. apply orderByCreatedAtAsc_perm. }
  destruct (includeUser_some d _ Hs') as (l & Hl & Hmap & Hall).
  exists (map (withRole (ride_driverId r)) l). split; [| split; [| split]].
  - rewrite (get_after_validation _ _ _ _ Hv).
    unfold ride_findUnique_driverId.
    rewrite (bind_return _ _ _ _ _ (query_read _ _ Ha1)), Hr. simpl.
    assert (Hq : query (chatMessage_findMany rideId) (answered w1) =
                 (Return l, answered (answered w1))).
    { unfold query, chatMessage_findMany. fold d. now rewrite Ha2, Hl. }
    now rewrite (bind_return _ _ _ _ _ Hq).
  - rewrite map_withRole_message, Hmap. apply orderByCreatedAtAsc_perm.
  - rewrite map_withRole_message, Hmap. apply orderByCreatedAtAsc_sorted.
  - apply List.Forall_map. eapply List.Forall_impl; [| exact Hall].
    intros mu Hu. simpl in *.
    pose proof (findUser_id _ _ _ Hu) as Hid.
    split; [| split].
    + exists (mu_user mu). auto.
    + exact Hid.
    + rewrite <- Hid. apply String.eqb_eq.
Qed.

Lemma messages_oldest_first_with_role_witness :
  let d := store "Confirmed" [booking "b1" "uma" "Confirmed"]
             [message 3 "uma" "on my way" 30; message 1 "dana" "hello" 10;
              message 2 "uma" "hi" 20] in
  exists ms,
    fst (getMessagesByRide "uma" "R" (calm d)) = Return ms /\
    map (fun m => (msg_createdAt (mr_message m), ur_isDriver (mr_user m))) ms =
      [(10, true); (20, false); (30, false)].
Proof.
  intros d.
  destruct (messages_oldest_first_with_role "uma" "R" (calm d) (calm d)
              {| ride_id := "R"; ride_driverId := "dana"; ride_status := "Confirmed" |})
    as (ms & Hg & _); try reflexivity.
  - repeat constructor; discriminate.
  - exists ms. split; [now rewrite Hg |].
    vm_compute in Hg. inversion Hg. reflexivity.
Defined.

(** ** Listing the participants of a ride *)

Lemma includeBookingUser_some d l :
  Forall (fun b => findUser d (booking_userId b) <> None) l ->
  exists r,
    includeBookingUser d l = Some r /\
    Forall2 (fun b bu => bu_booking bu = b /\
                         findUser d (booking_userId b) = Some (bu_user bu)) l r.
Proof.
  induction 1 as [| b l Hb _ (r & Hr & Hall)].
  - exists []. split; [reflexivity | constructor].
  - destruct (findUser d (booking_userId b)) as [u |] eqn:Hu; [| contradiction].
    exists ({| bu_booking := b; bu_user := u |} :: r). simpl.
    rewrite Hu, Hr. split; [reflexivity |].
    constructor; [split; [reflexivity | exact Hu] | exact Hall].
Qed.

Lemma participants_found rideId w r :
  next_fault w = None ->
  findRide (snapshot w) rideId = Some r ->
  driverPresent (snapshot w) r ->
  ridersPresent (snapshot w) rideId ->
  exists drv bs,
    findUser (snapshot w) (ride_driverId r) = Some drv /\
    Forall2 (fun b bu => bu_booking bu = b /\
                         findUser (snapshot w) (booking_userId b) = Some (bu_user bu))
      (bookingsOfRide (snapshot w) rideId) bs /\
    getRideParticipants rideId w =
      (Return (driverParticipant {| rwp_ride := r; rwp_driver := drv; rwp_bookings := bs |}
               :: map passengerParticipant bs), answered w).
Proof.
  intros Ha Hr Hd Hb.
  destruct (findUser (snapshot w) (ride_driverId r)) as [drv |] eqn:Hdrv;
    [| now destruct Hd].
  destruct (includeBookingUser_some _ _ Hb) as (bs & Hbs & Hall).
  exists drv, bs. repeat split; [exact Hall |].
  unfold getRideParticipants, tryCatch.
  assert (Hq : query (ride_findUnique_participants rideId) w =
               (Return (Some {| rwp_ride := r; rwp_driver := drv; rwp_bookings := bs |}),
                answered w)).
  { unfold query, ride_findUnique_participants. now rewrite Ha, Hr, Hdrv, Hbs. }
  now rewrite (bind_return _ _ _ _ _ Hq).
Qed.

(** C5. For an existing ride and a store that answers, [getRideParticipants]
    returns one entry more than the ride has bookings: first the driver
    ([isDriver] true, id the ride's [driverId], name "Champion" when unset),
    then one entry per booking of the ride, in the store's booking order and
    whatever the booking's status ([isDriver] false, the id, name and email
    of the booking's user, name "Rider" when unset). *)
Theorem participants_driver_then_riders rideId w r :
  next_fault w = None ->
  findRide (snapshot w) rideId = Some r ->
  driverPresent (snapshot w) r ->
  ridersPresent (snapshot w) rideId ->
  exists first rest,
    getRideParticipants rideId w = (Return (first :: rest), answered w) /\
    length (first :: rest) = S (length (bookingsOfRide (snapshot w) rideId)) /\
    p_isDriver first = true /\
    p_id first = ride_driverId r /\
    (exists u, findUser (snapshot w) (ride_driverId r) = Some u /\
               p_name first = orElse (user_name u) "Champion" /\
               (user_name u = None -> p_name first = "Champion") /\
               p_email first = user_email u) /\
    Forall2 (fun b p =>
               p_isDriver p = false /\
               p_id p = booking_userId b /\
               exists u, findUser (snapshot w) (booking_userId b) = Some u /\
                         p_name p = orElse (user_name u) "Rider" /\
                         (user_name u = None -> p_name p = "Rider") /\
                         p_email p = user_email u)
      (bookingsOfRide (snapshot w) rideId) rest.
Proof.
  intros Ha Hr Hd Hb.
  destruct (participants_found rideId w r Ha Hr Hd Hb) as (drv & bs & Hdrv & Hall & Hg).
  eexists _, _. split; [exact Hg |].
  assert (Hrest : Forall2 (fun b p =>
               p_isDriver p = false /\
               p_id p = booking_userId b /\
               exists u, findUser (snapshot w) (booking_userId b) = Some u /\
                         p_name p = orElse (user_name u) "Rider" /\
                         (user_name u = None -> p_name p = "Rider") /\
                         p_email p = user_email u)
      (bookingsOfRide (snapshot w) rideId) (map passengerParticipant bs)).
  { clear Hg. induction Hall as [| b bu l l' [_ Hu] _ IH]; simpl; constructor; [| exact IH].
    split; [reflexivity | split; [exact (findUser_id _ _ _ Hu) |]].
    exists (bu_user bu). repeat split; [exact Hu |].
    intros Hn. simpl. now rewrite Hn. }
  split; [| split; [reflexivity | split; [exact (findUser_id _ _ _ Hdrv) | split]]].
  - simpl. f_equal. symmetry. exact (Forall2_length _ _ _ Hrest).
  - exists drv. repeat split; [exact Hdrv |].
    intros Hn. simpl. now rewrite Hn.
  - exact Hrest.
Qed.

Lemma participants_driver_then_riders_witness :
  let w := calm (store "Confirmed"
                   [booking "b1" "uma" "CancelledUser"; booking "b2" "vic" "Confirmed"] []) in
  fst (getRideParticipants "R" w) =
    Return [ {| p_id := "dana"; p_name := "Champion"; p_email := "dana@share.co";
                p_isDriver := true |};
             {| p_id := "uma"; p_name := "Uma"; p_email := "uma@share.co";
                p_isDriver := false |};
             {| p_id := "vic"; p_name := "Rider"; p_email := "vic@share.co";
                p_isDriver := false |} ].
Proof.
  intros w.
  destruct (participants_driver_then_riders "R" w
              {| ride_id := "R"; ride_driverId := "dana"; ride_status := "Confirmed" |})
    as (first & rest & Hg & _);
    [reflexivity | reflexivity | discriminate | repeat constructor; discriminate |].
  rewrite Hg. vm_compute in Hg. inversion Hg. reflexivity.
Defined.

(** C10. [getRideParticipants] takes a ride id and nothing about the
    caller, and validates no credential. On a store whose rides and
    bookings refer to existing users, it fails in two ways only: with
    NotFound when no ride has the id, and with the store's own error when
    the store refuses the query; never with Unauthorized or ChatClosed. For
    an existing ride, whatever its status ("Cancelled" included), it returns
    the driver's id, name and email followed by the id, name and email of
    the user of every booking of the ride. *)
Theorem participants_need_no_credentials rideId w :
  (forall r, findRide (snapshot w) rideId = Some r ->
             driverPresent (snapshot w) r /\ ridersPresent (snapshot w) rideId) ->
  (forall e,
     fst (getRideParticipants rideId w) = Throw e ->
     ((e = Error "Ride not found" /\
       next_fault w = None /\ findRide (snapshot w) rideId = None) \/
      (exists raw, next_fault w = Some raw /\ e = PrismaError raw)) /\
     (kind_of e = Some NotFound \/ kind_of e = Some StoreFailure) /\
     kind_of e <> Some Unauthorized /\ kind_of e <> Some ChatClosed) /\
  (forall r,
     next_fault w = None ->
     findRide (snapshot w) rideId = Some r ->
     exists drv riders,
       findUser (snapshot w) (ride_driverId r) = Some drv /\
       Forall2 (fun b u => findUser (snapshot w) (booking_userId b) = Some u)
         (bookingsOfRide (snapshot w) rideId) riders /\
       getRideParticipants rideId w =
         (Return
            ({| p_id := user_id drv;
                p_name := orElse (user_name drv) "Champion";
                p_email := user_email drv;
                p_isDriver := true |}
             :: map (fun u => {| p_id := user_id u;
                                 p_name := orElse (user_name u) "Rider";
                                 p_email := user_email u;
                                 p_isDriver := false |}) riders),
          answered w)).
Proof.
  intros Hwf.
  assert (Hok : forall r,
             next_fault w = None ->
             findRide (snapshot w) rideId = Some r ->
             exists drv bs,
               findUser (snapshot w) (ride_driverId r) = Some drv /\
               Forall2 (fun b bu => bu_booking bu = b /\
                          findUser (snapshot w) (booking_userId b) = Some (bu_user bu))
                 (bookingsOfRide (snapshot w) rideId) bs /\
               getRideParticipants rideId w =
                 (Return (driverParticipant
                            {| rwp_ride := r; rwp_driver := drv; rwp_bookings := bs |}
                          :: map passengerParticipant bs), answered w)).
  { intros r Ha Hr. destruct (Hwf r Hr) as [Hd Hb].
    exact (participants_found rideId w r Ha Hr Hd Hb). }
  split.
  - intros e He.
    destruct (next_fault w) as [raw |] eqn:Ha.
    + revert He. unfold getRideParticipants, tryCatch, query. unfold_M.
      rewrite Ha. simpl. intros [= <-].
      repeat split; try discriminate; [right; eauto | now right].
    + destruct (findRide (snapshot w) rideId) as [r |] eqn:Hr.
      * destruct (Hok r eq_refl eq_refl) as (drv & bs & _ & _ & Hg).
        rewrite Hg in He. discriminate.
      * revert He.
        unfold getRideParticipants, tryCatch, query, ride_findUnique_participants.
        unfold_M. rewrite Ha, Hr. simpl. intros [= <-].
        repeat split; try discriminate; [left; auto | now left].
  - intros r Ha Hr.
    destruct (Hok r Ha Hr) as (drv & bs & Hdrv & Hall & Hg).
    exists drv, (map bu_user bs). split; [exact Hdrv | split].
    + clear Hg Hok Hwf.
      induction Hall as [| b bu l l' [_ Hu] _ IH]; simpl; [constructor |].
      constructor; [exact Hu | exact IH].
    + rewrite Hg, map_map. reflexivity.
Qed.

Lemma participants_need_no_credentials_witness :
  (let w := calm (store "Cancelled"
                    [booking "b1" "uma" "CancelledDriver"; booking "b2" "vic" "Confirmed"] []) in
   getRideParticipants "R" w =
     (Return [ {| p_id := "dana"; p_name := "Champion"; p_email := "dana@share.co";
                  p_isDriver := true |};
               {| p_id := "uma"; p_name := "Uma"; p_email := "uma@share.co";
                  p_isDriver := false |};
               {| p_id := "vic"; p_name := "Rider"; p_email := "vic@share.co";
                  p_isDriver := false |} ], w)) /\
  (let w := calm (store "Cancelled" [booking "b1" "uma" "CancelledDriver"] []) in
   fst (getRideParticipants "Q" w) = Throw (Error "Ride not found") /\
   (kind_of (Error "Ride not found") = Some NotFound \/
    kind_of (Error "Ride not found") = Some StoreFailure)).
Proof.
  split; intros w.
  - destruct (participants_need_no_credentials "R" w) as [_ H].
    { intros r [= <-]. split; [discriminate | repeat constructor; discriminate]. }
    destruct (H {| ride_id := "R"; ride_driverId := "dana"; ride_status := "Cancelled" |}
                eq_refl eq_refl) as (drv & riders & Hdrv & Hall & Hg).
    injection Hdrv as <-.
    inversion Hall as [| b1 u1 l1 l1' Hu1 Hall1]; subst.
    inversion Hall1 as [| b2 u2 l2 l2' Hu2 Hall2]; subst.
    inversion Hall2; subst.
    injection Hu1 as <-. injection Hu2 as <-.
    exact Hg.
  - destruct (participants_need_no_credentials "Q" w) as [H _].
    { intros r [=]. }
    split; [reflexivity |].
    exact (proj1 (proj2 (H (Error "Ride not found") eq_refl))).
Defined.

(** ** Inserting a message *)

Lemma environment_one_query w w' :
  sched w' = tail (sched w) ->
  environment (consumed w w') (db w) = snapshot w.
Proof.
  intros H. unfold consumed, snapshot, next_tick. rewrite H.
  destruct (sched w) as [| t ts]; simpl; [reflexivity |].
  replace (S (length ts) - length ts)%nat with 1%nat by lia. reflexivity.
Qed.

Lemma environment_two_queries w w' :
  sched w' = tail (tail (sched w)) ->
  environment (consumed w w') (db w) = snapshot (answered w).
Proof.
  intros H. unfold consumed. rewrite H.
  unfold snapshot, answered, next_tick. simpl. unfold snapshot, next_tick.
  destruct (sched w) as [| t [| t' ts]]; simpl; try reflexivity.
  replace (S (S (length ts)) - length ts)%nat with 2%nat by lia. reflexivity.
Qed.

(** The validator issues one query and leaves the store as that query saw
    it. *)
Lemma validate_world rideId userId w o w1 :
  validateCredentials rideId userId w = (o, w1) ->
  db w1 = snapshot w /\ sched w1 = tail (sched w).
Proof.
  destruct o as [b | e]; intros H.
  - apply validate_return in H as (_ & -> & _). auto.
  - revert H. destruct (next_fault w) as [raw |] eqn:Ha.
    { rewrite (validate_fault _ _ _ _ Ha). intros [= _ <-]. auto. }
    destruct (findRide (snapshot w) rideId) as [r |] eqn:Hr.
    2: { rewrite (validate_not_found _ _ _ Ha Hr). intros [= _ <-]. auto. }
    destruct (string_dec (ride_status r) "Cancelled") as [Hs | Hs].
    { rewrite (validate_cancelled _ _ _ Ha _ Hr Hs). intros [= _ <-]. auto. }
    destruct (string_dec (ride_driverId r) userId) as [Hd | Hd].
    { rewrite (validate_driver _ _ _ Ha _ Hr Hs Hd). discriminate. }
    destruct (bookingsOfUser (snapshot w) rideId userId) as [| b0 others] eqn:Hb.
    { rewrite (validate_stranger _ _ _ Ha _ Hr Hs Hd Hb). intros [= _ <-]. auto. }
    destruct (string_dec (booking_status b0) "CancelledDriver") as [H1 | H1].
    { rewrite (validate_booking_cancelled _ _ _ Ha _ Hr Hs Hd _ _ Hb (or_introl H1)).
      intros [= _ <-]. auto. }
    destruct (string_dec (booking_status b0) "CancelledUser") as [H2 | H2].
    { rewrite (validate_booking_cancelled _ _ _ Ha _ Hr Hs Hd _ _ Hb (or_intror H2)).
      intros [= _ <-]. auto. }
    rewrite (validate_booking_active _ _ _ Ha _ Hr Hs Hd _ _ Hb).
    + discriminate.
    + intros [E | E]; contradiction.
Qed.

(** C6. [insertMessage] is all or nothing. Against the store as the rest
    of the application left it during the call ([environment]), either it
    returns the created record and the store has exactly that one row more,
    carrying the given ride, sender and content, or it throws and the store
    has no row more. When the validator throws, [insertMessage] throws the
    same value and leaves the store as the validator left it. *)
Theorem insert_all_or_nothing rideId senderId content w :
  let run := insertMessage rideId senderId content w in
  let env := environment (consumed w (snd run)) (db w) in
  match fst run with
  | Return m =>
      db (snd run) = addMessage m env /\
      chatMessages (db (snd run)) = (chatMessages env ++ [m])%list /\
      msg_rideId m = rideId /\ msg_userId m = senderId /\ msg_content m = content
  | Throw _ => db (snd run) = env
  end /\
  (forall e w1,
     validateCredentials rideId senderId w = (Throw e, w1) ->
     fst run = Throw e /\ db (snd run) = db w1).
Proof.
  intros run env. split.
  - subst env run.
    destruct (validateCredentials rideId senderId w) as [[b | e] w1] eqn:Hv.
    + destruct (validate_return _ _ _ _ _ Hv) as (_ & -> & ->).
      unfold insertMessage, tryCatch.
      rewrite (bind_return _ _ _ _ _ Hv).
      unfold_M. unfold query, chatMessage_create.
      destruct (next_fault (answered w)); simpl.
      { now rewrite environment_two_queries. }
      destruct (findRide _ rideId); simpl.
      * destruct (findUser _ senderId); simpl;
          rewrite environment_two_queries by reflexivity; auto.
      * now rewrite environment_two_queries.
    + rewrite (insert_validate_throw _ _ content _ _ _ Hv). simpl.
      destruct (validate_world _ _ _ _ _ Hv) as [Hd Hs].
      rewrite Hd. symmetry. now apply environment_one_query.
  - intros e w1 Hv. subst run.
    now rewrite (insert_validate_throw _ _ content _ _ _ Hv).
Qed.

Lemma insert_all_or_nothing_witness :
  (let w := calm (store "Confirmed" [booking "b1" "uma" "CancelledUser"] []) in
   validateCredentials "R" "uma" w =
     (Throw (Error "Ride booking is cancelled. chat closed."), w) /\
   fst (insertMessage "R" "uma" "hi" w) =
     Throw (Error "Ride booking is cancelled. chat closed.") /\
   db (snd (insertMessage "R" "uma" "hi" w)) = db w).
Proof.
  intros w. split; [reflexivity |].
  destruct (insert_all_or_nothing "R" "uma" "hi" w) as [_ H].
  exact (H (Error "Ride booking is cancelled. chat closed.") w eq_refl).
Defined.

(** ** The scenarios of the spec *)

(** Ride "R" is "Confirmed", dana drives it and uma holds a "Confirmed"
    booking: uma's message is stored and returned, and dana then reads it
    as a rider's message. *)
Example scenario_confirmed_booking :
  let w := calm (store "Confirmed" [booking "b1" "uma" "Confirmed"] []) in
  fst (insertMessage "R" "uma" "hi" w) = Return (message 7 "uma" "hi" 1700) /\
  fst (getMessagesByRide "dana" "R" (snd (insertMessage "R" "uma" "hi" w))) =
    Return [ {| mr_message := message 7 "uma" "hi" 1700;
                mr_user := {| ur_id := "uma"; ur_name := Some "Uma";
                              ur_email := "uma@share.co"; ur_isDriver := false |} |} ].
Proof. split; reflexivity. Qed.

(** The same ride once uma's booking is "CancelledUser". *)
Example scenario_cancelled_booking :
  let w := calm (store "Confirmed" [booking "b1" "uma" "CancelledUser"] []) in
  insertMessage "R" "uma" "hi" w =
    (Throw (Error "Ride booking is cancelled. chat closed."),
     logged "Error insert message: Error: Ride booking is cancelled. chat closed." w).
Proof. reflexivity. Qed.

(** A name that is set to the empty string is replaced like an unset one. *)
Example orElse_empty_name : orElse (Some EmptyString) "Rider" = "Rider".
Proof. reflexivity. Qed.

(** * Further properties of the server actions *)

(** ** The decision table of the validator *)

Lemma validate_verdict rideId userId w :
  next_fault w = None ->
  exists o,
    validateCredentials rideId userId w = (o, answered w) /\
    verdict (snapshot w) rideId userId o.
Proof.
  intros Ha.
  destruct (findRide (snapshot w) rideId) as [r |] eqn:Hr.
  2: { eexists. split; [now apply validate_not_found | now constructor]. }
  destruct (string_dec (ride_status r) "Cancelled") as [Hs | Hs].
  { eexists. split; [now apply validate_cancelled with (r := r) |].
    now apply verdict_ride_cancelled with (r := r). }
  destruct (string_dec (ride_driverId r) userId) as [Hd | Hd].
  { eexists. split; [now apply validate_driver with (r := r) |].
    now apply verdict_driver with (r := r). }
  destruct (bookingsOfUser (snapshot w) rideId userId) as [| b0 others] eqn:Hb.
  { eexists. split; [now apply validate_stranger with (r := r) |].
    now apply verdict_stranger with (r := r). }
  assert (Hc : cancelledBooking b0 \/ ~ cancelledBooking b0).
  { unfold cancelledBooking.
    destruct (string_dec (booking_status b0) "CancelledDriver");
      destruct (string_dec (booking_status b0) "CancelledUser"); tauto. }
  destruct Hc as [Hc | Hc].
  - eexists. split.
    + now apply validate_booking_cancelled with (r := r) (b0 := b0) (others := others).
    + now apply verdict_booking_cancelled with (r := r) (b0 := b0) (others := others).
  - eexists. split.
    + now apply validate_booking_active with (r := r) (b0 := b0) (others := others).
    + now apply verdict_booking_active with (r := r) (b0 := b0) (others := others).
Qed.

Lemma verdict_return_mayChat d rideId userId b :
  verdict d rideId userId (Return b) -> b = true /\ mayChat d rideId userId.
Proof.
  inversion 1; subst; (split; [reflexivity |]); exists r; repeat split; eauto.
Qed.

Lemma mayChat_validates rideId userId w :
  next_fault w = None ->
  mayChat (snapshot w) rideId userId ->
  validateCredentials rideId userId w = (Return true, answered w).
Proof.
  intros Ha (r & Hr & Hs & Hwho).
  destruct (string_dec (ride_driverId r) userId) as [Hd | Hd].
  - now apply validate_driver with (r := r).
  - destruct Hwho as [Hd' | (b0 & others & Hb & Hc)]; [contradiction |].
    now apply validate_booking_active with (r := r) (b0 := b0) (others := others).
Qed.

Lemma validate_passes_inv rideId userId w b w1 :
  validateCredentials rideId userId w = (Return b, w1) ->
  next_fault w = None /\ mayChat (snapshot w) rideId userId.
Proof.
  intros H. destruct (validate_return _ _ _ _ _ H) as (Ha & _ & _).
  split; [exact Ha |].
  destruct (validate_verdict rideId userId w Ha) as (o & Ho & Hv).
  rewrite Ho in H. injection H as -> _.
  now apply verdict_return_mayChat in Hv.
Qed.

(** X1. The validator lets a user in exactly when the store answers its
    lookup, the ride exists and is not "Cancelled", and the user is the
    driver or the first booking returned for the user is not cancelled. *)
Theorem validator_passes_iff rideId userId w :
  fst (validateCredentials rideId userId w) = Return true <->
  next_fault w = None /\ mayChat (snapshot w) rideId userId.
Proof.
  split.
  - destruct (validateCredentials rideId userId w) as [o w1] eqn:Hv. simpl.
    intros ->. exact (validate_passes_inv _ _ _ _ _ Hv).
  - intros [Ha Hm]. now rewrite (mayChat_validates _ _ _ Ha Hm).
Qed.

Lemma validator_passes_iff_witness :
  let w := calm (store "Confirmed" [booking "b1" "uma" "Confirmed"] []) in
  mayChat (snapshot w) "R" "uma" /\ ~ mayChat (snapshot w) "R" "vic".
Proof.
  intros w. split.
  - apply (validator_passes_iff "R" "uma" w). reflexivity.
  - intros Hm.
    assert (H : fst (validateCredentials "R" "vic" w) = Return true)
      by (apply (validator_passes_iff "R" "vic" w); split; [reflexivity | exact Hm]).
    discriminate H.
Defined.

(** X2. The validator never throws an error of the store: when its lookup
    is refused it throws its fixed replacement, and otherwise what it throws
    is the error of the first rule of the decision table that applies. *)
Theorem validator_throws_own_errors rideId userId w e :
  fst (validateCredentials rideId userId w) = Throw e ->
  (forall raw, e <> PrismaError raw) /\
  ((next_fault w <> None /\
    e = Error "Something went wrong. Please try again letter.") \/
   (next_fault w = None /\ verdict (snapshot w) rideId userId (Throw e))).
Proof.
  intros H.
  destruct (next_fault w) as [raw |] eqn:Ha.
  - rewrite (validate_fault _ _ _ _ Ha) in H. injection H as <-.
    split; [discriminate | left; split; [discriminate | reflexivity]].
  - destruct (validate_verdict rideId userId w Ha) as (o & Ho & Hv).
    rewrite Ho in H. simpl in H. subst o.
    split; [| right; auto].
    inversion Hv; discriminate.
Qed.

Lemma validator_throws_own_errors_witness :
  let w := calm (store "Confirmed" [booking "b1" "uma" "CancelledUser"] []) in
  next_fault w = None /\
  verdict (snapshot w) "R" "uma" (Throw (Error "Ride booking is cancelled. chat closed.")).
Proof.
  intros w.
  destruct (validator_throws_own_errors "R" "uma" w
              (Error "Ride booking is cancelled. chat closed.") eq_refl)
    as [_ [[H _] | H]]; [now destruct H | exact H].
Defined.

(** X3. Neither message operation can be used around the validator: if
    [insertMessage] or [getMessagesByRide] returns, the store answered the
    validator's lookup and the caller was allowed in the chat of the ride
    at that time. *)
Theorem no_access_without_credentials rideId userId content w :
  (forall m, fst (insertMessage rideId userId content w) = Return m ->
             next_fault w = None /\ mayChat (snapshot w) rideId userId) /\
  (forall ms, fst (getMessagesByRide userId rideId w) = Return ms ->
              next_fault w = None /\ mayChat (snapshot w) rideId userId).
Proof.
  destruct (validateCredentials rideId userId w) as [[b | e] w1] eqn:Hv.
  - pose proof (validate_passes_inv _ _ _ _ _ Hv). auto.
  - split; intros x H.
    + rewrite (insert_validate_throw _ _ content _ _ _ Hv) in H. discriminate.
    + rewrite (get_validate_throw _ _ _ _ _ Hv) in H. discriminate.
Qed.

Lemma no_access_without_credentials_witness :
  let w := calm (store "Confirmed" [booking "b1" "uma" "Confirmed"] []) in
  mayChat (snapshot w) "R" "uma".
Proof.
  intros w.
  destruct (no_access_without_credentials "R" "uma" "hi" w) as [H _].
  apply (H (message 7 "uma" "hi" 1700)). reflexivity.
Defined.

(** X4. What [getMessagesByRide] returns does not depend on who asks: two
    callers who both pass validation get the same outcome and leave the
    same world. *)
Theorem messages_same_for_all_callers userId1 userId2 rideId w :
  fst (validateCredentials rideId userId1 w) = Return true ->
  fst (validateCredentials rideId userId2 w) = Return true ->
  getMessagesByRide userId1 rideId w = getMessagesByRide userId2 rideId w.
Proof.
  intros H1 H2.
  destruct (validateCredentials rideId userId1 w) as [o1 w1] eqn:Hv1.
  destruct (validateCredentials rideId userId2 w) as [o2 w2] eqn:Hv2.
  simpl in H1, H2. subst o1 o2.
  destruct (validate_return _ _ _ _ _ Hv1) as (_ & -> & _).
  destruct (validate_return _ _ _ _ _ Hv2) as (_ & -> & _).
  now rewrite (get_after_validation _ _ _ _ Hv1), (get_after_validation _ _ _ _ Hv2).
Qed.

Lemma messages_same_for_all_callers_witness :
  let w := calm (store "Confirmed" [booking "b1" "uma" "Confirmed"]
                   [message 1 "dana" "hello" 10; message 2 "uma" "hi" 20]) in
  getMessagesByRide "dana" "R" w = getMessagesByRide "uma" "R" w.
Proof.
  intros w. apply (messages_same_for_all_callers "dana" "uma" "R" w); reflexivity.
Defined.

(** ** Reads, writes and the log *)

Lemma sameStore_logged line w : sameStore (logged line w) w.
Proof. split; reflexivity. Qed.

Lemma second_read rideId w1 :
  next_fault w1 = None ->
  query (ride_findUnique_driverId rideId) w1 =
    (Return (option_map ride_driverId (findRide (snapshot w1) rideId)), answered w1).
Proof. intros Ha. unfold ride_findUnique_driverId. now rewrite (query_read _ _ Ha). Qed.

(** The third query of [getMessagesByRide] leaves the store alone whatever
    it answers. *)
Lemma third_read rideId w2 :
  exists o, query (chatMessage_findMany rideId) w2 = (o, answered w2).
Proof.
  unfold query, chatMessage_findMany.
  destruct (next_fault w2); [eauto |].
  destruct (includeUser _ _); eauto.
Qed.

(** X5. The validator, [getMessagesByRide] and [getRideParticipants] only
    read: whatever they return or throw, they leave the store as their
    queries found it. The validator and [getRideParticipants] issue exactly
    one query, [getMessagesByRide] between one and three. *)
Theorem reads_leave_the_store_alone rideId userId w :
  sameStore (snd (validateCredentials rideId userId w)) (answered w) /\
  (exists k, (1 <= k <= 3)%nat /\
             sameStore (snd (getMessagesByRide userId rideId w)) (answered_n k w)) /\
  sameStore (snd (getRideParticipants rideId w)) (answered w).
Proof.
  split; [| split].
  - destruct (validateCredentials rideId userId w) as [o w1] eqn:Hv.
    exact (validate_world _ _ _ _ _ Hv).
  - destruct (validateCredentials rideId userId w) as [[b | e] w1] eqn:Hv.
    + destruct (validate_return _ _ _ _ _ Hv) as (_ & -> & ->).
      rewrite (get_after_validation _ _ _ _ Hv).
      destruct (next_fault (answered w)) as [raw |] eqn:Ha.
      { exists 2%nat. split; [lia |].
        rewrite (bind_throw _ _ _ _ _ (query_fault _ _ _ Ha)). split; reflexivity. }
      rewrite (bind_return _ _ _ _ _ (second_read rideId _ Ha)).
      destruct (findRide (snapshot (answered w)) rideId) as [r |]; simpl.
      * exists 3%nat. split; [lia |].
        destruct (third_read rideId (answered (answered w))) as ([ms | e] & Hq).
        -- rewrite (bind_return _ _ _ _ _ Hq). split; reflexivity.
        -- rewrite (bind_throw _ _ _ _ _ Hq). split; reflexivity.
      * exists 2%nat. split; [lia | split; reflexivity].
    + exists 1%nat. split; [lia |].
      rewrite (get_validate_throw _ _ _ _ _ Hv).
      exact (validate_world _ _ _ _ _ Hv).
  - unfold getRideParticipants, tryCatch, query, ride_findUnique_participants.
    unfold_M.
    destruct (next_fault w); simpl; [split; reflexivity |].
    destruct (findRide (snapshot w) rideId) as [r |]; simpl; [| split; reflexivity].
    destruct (findUser (snapshot w) (ride_driverId r)); simpl; [| split; reflexivity].
    destruct (includeBookingUser _ _); simpl; split; reflexivity.
Qed.



(** X7. [getMessagesByRide] neither logs nor replaces what the store throws
    after validation: a refusal of its second read (the ride) or of its
    third read (the messages) reaches the caller as the raw error of the
    store, and the log is as it was before the call. *)
Theorem get_messages_store_errors_reach_caller userId rideId w w1 raw :
  validateCredentials rideId userId w = (Return true, w1) ->
  (next_fault w1 = Some raw ->
   getMessagesByRide userId rideId w = (Throw (PrismaError raw), answered w1) /\
   log (answered w1) = log w) /\
  (forall r,
     next_fault w1 = None ->
     findRide (snapshot w1) rideId = Some r ->
     next_fault (answered w1) = Some raw ->
     getMessagesByRide userId rideId w =
       (Throw (PrismaError raw), answered (answered w1)) /\
     log (answered (answered w1)) = log w).
Proof.
  intros Hv.
  destruct (validate_return _ _ _ _ _ Hv) as (_ & Hw1 & _).
  rewrite (get_after_validation _ _ _ _ Hv).
  split.
  - intros Ha. split; [| now rewrite Hw1].
    now rewrite (bind_throw _ _ _ _ _ (query_fault _ _ _ Ha)).
  - intros r Ha Hr Ha2. split; [| now rewrite Hw1].
    rewrite (bind_return _ _ _ _ _ (second_read rideId _ Ha)), Hr. simpl.
    now rewrite (bind_throw _ _ _ _ _ (query_fault _ _ _ Ha2)).
Qed.

Lemma get_messages_store_errors_reach_caller_witness :
  (let w := scheduled [quiet; refuse] (store "Confirmed" [] []) in
   getMessagesByRide "dana" "R" w =
     (Throw (PrismaError unreachable), calm (store "Confirmed" [] []))) /\
  (let w := scheduled [quiet; quiet; refuse] (store "Confirmed" [] []) in
   getMessagesByRide "dana" "R" w =
     (Throw (PrismaError unreachable), calm (store "Confirmed" [] []))).
Proof.
  split; intros w.
  - destruct (get_messages_store_errors_reach_caller "dana" "R" w (answered w) unreachable)
      as [H _]; [reflexivity |].
    exact (proj1 (H eq_refl)).
  - destruct (get_messages_store_errors_reach_caller "dana" "R" w (answered w) unreachable)
      as [_ H]; [reflexivity |].
    exact (proj1 (H {| ride_id := "R"; ride_driverId := "dana"; ride_status := "Confirmed" |}
                    eq_refl eq_refl eq_refl)).
Defined.

(** X8. [getRideParticipants] logs every failure and nothing else: when it
    throws [e] it has added the one line "Error fetching participants for
    ride ID <id>: <e>" and thrown [e] itself; when it returns it has logged
    nothing. Either way it issued one query and left the store alone. *)
Theorem participants_logs_every_failure rideId w :
  let run := getRideParticipants rideId w in
  match fst run with
  | Return _ => snd run = answered w
  | Throw e =>
      snd run =
        logged ("Error fetching participants for ride ID " +:+ rideId +:+ ": "
                +:+ toString e) (answered w)
  end.
Proof.
  unfold getRideParticipants, tryCatch, query, ride_findUnique_participants.
  unfold_M.
  destruct (next_fault w); simpl; [reflexivity |].
  destruct (findRide (snapshot w) rideId) as [r |]; simpl; [| reflexivity].
  destruct (findUser (snapshot w) (ride_driverId r)); simpl; [| reflexivity].
  destruct (includeBookingUser _ _); reflexivity.
Qed.

(** ** What is stored and what is listed *)

(** X9. [insertMessage] does not look at the content: with another content
    the call returns exactly when it returns here, each time with the row
    the store builds for that content, and throws the same error when it
    throws. The empty content is stored like any other. *)
Theorem insert_accepts_any_content rideId senderId content content' w :
  match fst (insertMessage rideId senderId content w),
        fst (insertMessage rideId senderId content' w) with
  | Return m, Return m' =>
      m = newMessage (snapshot (answered w)) rideId senderId content /\
      m' = newMessage (snapshot (answered w)) rideId senderId content'
  | Throw e, Throw e' => e = e'
  | _, _ => False
  end.
Proof.
  destruct (validateCredentials rideId senderId w) as [[b | e] w1] eqn:Hv.
  - destruct (validate_return _ _ _ _ _ Hv) as (_ & -> & _).
    unfold insertMessage, tryCatch. rewrite !(bind_return _ _ _ _ _ Hv).
    unfold_M. unfold query, chatMessage_create.
    destruct (next_fault (answered w)); simpl; [reflexivity |].
    destruct (findRide _ rideId); simpl; [| reflexivity].
    destruct (findUser _ senderId); simpl; [split |]; reflexivity.
  - now rewrite !(insert_validate_throw _ _ _ _ _ _ Hv).
Qed.

Lemma calm_answered w : sched w = [] -> answered w = w.
Proof. destruct w as [d ts l]. simpl. intros ->. reflexivity. Qed.

(** A returning [insertMessage] on a calm world: the gate was open, the
    sender is a user, and the world gained the returned row. *)
Lemma insert_calm_inv rideId senderId content w m w' :
  sched w = [] ->
  insertMessage rideId senderId content w = (Return m, w') ->
  mayChat (db w) rideId senderId /\
  findUser (db w) senderId <> None /\
  m = newMessage (db w) rideId senderId content /\
  w' = {| db := addMessage m (db w); sched := []; log := log w |}.
Proof.
  intros Hc H.
  destruct (validateCredentials rideId senderId w) as [[b | e] w1] eqn:Hv.
  2: { rewrite (insert_validate_throw _ _ content _ _ _ Hv) in H. discriminate. }
  destruct (validate_passes_inv _ _ _ _ _ Hv) as [_ Hm].
  destruct (validate_return _ _ _ _ _ Hv) as (_ & -> & _).
  revert H. unfold insertMessage, tryCatch. rewrite (bind_return _ _ _ _ _ Hv).
  rewrite (calm_answered _ Hc) in *.
  assert (Hs : snapshot w = db w).
  { unfold snapshot, next_tick. now rewrite Hc. }
  rewrite Hs in Hm.
  unfold_M. unfold query, next_fault, next_tick, chatMessage_create.
  rewrite Hs, Hc. simpl.
  destruct (findRide (db w) rideId); simpl; [| discriminate].
  destruct (findUser (db w) senderId); simpl; [| discriminate].
  intros [= <- <-]. repeat split; [exact Hm | discriminate].
Qed.

Lemma get_messages_run userId rideId w w1 r :
  validateCredentials rideId userId w = (Return true, w1) ->
  next_fault w1 = None ->
  findRide (snapshot w1) rideId = Some r ->
  next_fault (answered w1) = None ->
  sendersPresent (snapshot (answered w1)) rideId ->
  exists l,
    map mu_message l =
      orderByCreatedAtAsc (messagesOfRide (snapshot (answered w1)) rideId) /\
    getMessagesByRide userId rideId w =
      (Return (map (withRole (ride_driverId r)) l), answered (answered w1)).
Proof.
  intros Hv Ha1 Hr Ha2 Hs.
  assert (Hs' : Forall (fun m => findUser (snapshot (answered w1)) (msg_userId m) <> None)
                  (orderByCreatedAtAsc (messagesOfRide (snapshot (answered w1)) rideId))).
  { eapply Permutation_Forall; [| exact Hs]. symmetry. apply orderByCreatedAtAsc_perm. }
  destruct (includeUser_some _ _ Hs') as (l & Hl & Hmap & _).
  exists l. split; [exact Hmap |].
  rewrite (get_after_validation _ _ _ _ Hv).
  rewrite (bind_return _ _ _ _ _ (second_read rideId _ Ha1)), Hr. simpl.
  assert (Hq : query (chatMessage_findMany rideId) (answered w1) =
               (Return l, answered (answered w1))).
  { unfold query, chatMessage_findMany. now rewrite Ha2, Hl. }
  now rewrite (bind_return _ _ _ _ _ Hq).
Qed.

#[global] Instance created_le_trans : Transitive created_le.
Proof. intros a b c. unfold created_le. lia. Qed.

Lemma sorted_snoc_bound (l : list ChatMessage) x :
  StronglySorted created_le (l ++ [x]) -> Forall (fun y => created_le y x) l.
Proof.
  induction l as [| a l IH]; simpl; intros H; [constructor |].
  inversion H as [| ? ? Hl Ha]; subst. constructor.
  - rewrite List.Forall_forall in Ha. apply Ha. apply in_or_app. right. now left.
  - now apply IH.
Qed.

(** In a list sorted by creation time, a message strictly newer than all
    the others comes last. *)
Lemma newest_is_last (l older : list ChatMessage) m :
  Sorted created_le l ->
  Permutation l (older ++ [m]) ->
  Forall (fun m' => msg_createdAt m' < msg_createdAt m) older ->
  exists earlier, l = (earlier ++ [m])%list.
Proof.
  intros Hs Hp Hold.
  destruct (exists_last (l := l)) as (earlier & x & ->).
  { intros ->. apply Permutation_nil in Hp. now destruct older. }
  exists earlier. f_equal. f_equal.
  apply Sorted_StronglySorted in Hs; [| exact created_le_trans].
  pose proof (sorted_snoc_bound _ _ Hs) as Hb.
  assert (Hx : In x (older ++ [m])).
  { eapply Permutation_in; [exact Hp |]. apply in_or_app. right. now left. }
  apply in_app_or in Hx as [Hx | [Hx | []]]; [| now symmetry].
  assert (Hm : In m (earlier ++ [x])).
  { eapply Permutation_in; [symmetry; exact Hp |]. apply in_or_app. right. now left. }
  apply in_app_or in Hm as [Hm | [Hm | []]]; [| exact Hm].
  rewrite List.Forall_forall in Hb, Hold.
  specialize (Hb _ Hm). specialize (Hold _ Hx). unfold created_le in Hb. lia.
Qed.

Lemma messagesOfRide_addMessage d rideId senderId content :
  let m := newMessage d rideId senderId content in
  messagesOfRide (addMessage m d) rideId = (messagesOfRide d rideId ++ [m])%list.
Proof.
  intros m. unfold messagesOfRide. simpl.
  rewrite List.filter_app. simpl. now rewrite String.eqb_refl.
Qed.

(** X10. Insert, then list, with nobody else touching the store: once
    [insertMessage] has returned a row, [getMessagesByRide] by the same user
    returns the ride's earlier messages and that row, and the row comes last
    when it is strictly newer than all the earlier ones. *)
Theorem inserted_message_is_listed rideId senderId content w m w' :
  sched w = [] ->
  insertMessage rideId senderId content w = (Return m, w') ->
  sendersPresent (db w) rideId ->
  exists ms,
    getMessagesByRide senderId rideId w' = (Return ms, w') /\
    Permutation (map mr_message ms) (messagesOfRide (db w) rideId ++ [m]) /\
    (Forall (fun m' => msg_createdAt m' < msg_createdAt m) (messagesOfRide (db w) rideId) ->
     exists earlier, map mr_message ms = (earlier ++ [m])%list).
Proof.
  intros Hc Hi Hs.
  destruct (insert_calm_inv _ _ _ _ _ _ Hc Hi) as (Hm & Hu & -> & ->).
  set (m := newMessage (db w) rideId senderId content).
  set (w' := {| db := addMessage m (db w); sched := []; log := log w |}).
  assert (Hw' : answered w' = w') by now apply calm_answered.
  assert (Hv : validateCredentials rideId senderId w' = (Return true, w')).
  { rewrite <- Hw' at 2. apply mayChat_validates; [reflexivity | exact Hm]. }
  destruct Hm as (r & Hr & _).
  assert (Hall : messagesOfRide (addMessage m (db w)) rideId =
                 (messagesOfRide (db w) rideId ++ [m])%list)
    by apply messagesOfRide_addMessage.
  destruct (get_messages_run senderId rideId w' w' r Hv) as (l & Hmap & Hg).
  - reflexivity.
  - exact Hr.
  - now rewrite Hw'.
  - rewrite Hw'. unfold sendersPresent. change (snapshot w') with (addMessage m (db w)).
    rewrite Hall. apply Forall_app. split; [exact Hs |].
    constructor; [exact Hu | constructor].
  - rewrite !Hw' in *. change (snapshot w') with (addMessage m (db w)) in Hmap.
    rewrite Hall in Hmap.
    exists (map (withRole (ride_driverId r)) l).
    rewrite map_withRole_message, Hmap.
    split; [exact Hg | split].
    + apply orderByCreatedAtAsc_perm.
    + intros Hold. eapply newest_is_last; [| | exact Hold].
      * apply orderByCreatedAtAsc_sorted.
      * apply orderByCreatedAtAsc_perm.
Qed.

Lemma inserted_message_is_listed_witness :
  let w := calm (store "Confirmed" [booking "b1" "uma" "Confirmed"]
                   [message 2 "uma" "hi" 20; message 1 "dana" "hello" 10]) in
  exists ms,
    fst (getMessagesByRide "uma" "R" (snd (insertMessage "R" "uma" "see you" w))) =
      Return ms /\
    exists earlier, map mr_message ms = (earlier ++ [message 7 "uma" "see you" 1700])%list.
Proof.
  intros w.
  destruct (inserted_message_is_listed "R" "uma" "see you" w
              (message 7 "uma" "see you" 1700)
              (snd (insertMessage "R" "uma" "see you" w)))
    as (ms & Hg & _ & Hlast); [reflexivity | reflexivity | |].
  - repeat constructor; discriminate.
  - exists ms. split; [now rewrite Hg |].
    apply Hlast. repeat constructor.
Defined.

(** ** Display names *)

Lemma orElse_not_empty name fallback :
  fallback <> EmptyString -> orElse name fallback <> EmptyString.
Proof.
  intros Hf. unfold orElse. destruct name as [s |]; [| exact Hf].
  destruct (String.eqb s EmptyString) eqn:E; [exact Hf |].
  now apply String.eqb_neq.
Qed.

(** X11. No participant is returned with an empty name: whatever
    [getRideParticipants] returns, a name that is unset or the empty string
    has been replaced by "Champion" or "Rider", so every entry has a name
    of at least one character. *)
Theorem participants_names_never_empty rideId w ps :
  fst (getRideParticipants rideId w) = Return ps ->
  Forall (fun p => p_name p <> EmptyString) ps.
Proof.
  unfold getRideParticipants, tryCatch, query, ride_findUnique_participants.
  unfold_M.
  destruct (next_fault w); simpl; [discriminate |].
  destruct (findRide (snapshot w) rideId) as [r |]; simpl; [| discriminate].
  destruct (findUser (snapshot w) (ride_driverId r)) as [drv |]; simpl; [| discriminate].
  destruct (includeBookingUser _ _) as [bs |]; simpl; [| discriminate].
  intros [= <-]. constructor.
  - apply orElse_not_empty. discriminate.
  - apply List.Forall_map. apply List.Forall_forall. intros b _.
    apply orElse_not_empty. discriminate.
Qed.

Lemma participants_names_never_empty_witness :
  let noname := {| user_id := "ned"; user_name := Some EmptyString;
                   user_email := "ned@share.co" |} in
  let d := {| rides := [ {| ride_id := "R"; ride_driverId := "ned";
                            ride_status := "Confirmed" |} ];
              bookings := [booking "b1" "ned" "Confirmed"]; chatMessages := [];
              users := [noname]; clock := 0; nextId := 0 |} in
  Forall (fun p => p_name p <> EmptyString)
    [ {| p_id := "ned"; p_name := "Champion"; p_email := "ned@share.co";
         p_isDriver := true |};
      {| p_id := "ned"; p_name := "Rider"; p_email := "ned@share.co";
         p_isDriver := false |} ].
Proof.
  intros noname d.
  apply (participants_names_never_empty "R" (calm d)). reflexivity.
Defined.
